(** * embedded_utils: strided copy and mean over spans

    A shallow embedding of [src/embedded_utils.hpp] (namespace [utils]):
    [THROW_OR_PANIC], the two overloads of [copy_every_nth] and the two
    overloads of [mean].

    - [std::size_t] values are integers in [0, 2^size_bits) and every
      addition and subtraction wraps modulo [2^size_bits], as unsigned
      arithmetic does in C++.
    - A [std::span<T>] is the list of the elements it views; the destination
      span is mutable storage, threaded through the computation.
    - A [static_assert] that fails makes the program ill-formed, a call of
      [THROW_OR_PANIC] throws or aborts, and an access outside a span is
      undefined behaviour: each is an outcome of its own.
    - Source and destination are taken to view disjoint storage.
    - The loops run on fuel; the [S (length destination)] they are given
      is always enough ([dynamic_copy_total], [static_copy_total]).
    - [double] is IEEE binary64 with round to nearest, ties to even; the
      sum [init + *first] is a parameter of [accumulate], since its
      intermediate format depends on the element type. *)

From Stdlib Require Import ZArith Lia Bool String PrimFloat SpecFloat FloatOps.
From stdpp Require Import base list.

Open Scope string_scope.
Open Scope Z_scope.

(** ** Build configuration (lines 10-15 of the header) *)

(** The three feature macros the header tests. A macro is either undefined
    ([None]) or defined with an integer value. *)
Record build_config := {
  cpp_exceptions : option Z;   (* __cpp_exceptions *)
  EXCEPTIONS     : option Z;   (* __EXCEPTIONS *)
  CPPUNWIND      : option Z    (* _CPPUNWIND *)
}.

Definition defined (m : option Z) : bool :=
  match m with Some _ => true | None => false end.

(** [defined(M) && M] *)
Definition defined_and_nonzero (m : option Z) : bool :=
  match m with Some v => negb (v =? 0) | None => false end.

(** [#define EXCEPTIONS_ENABLED] is reached exactly when the [#if] holds. *)
Definition EXCEPTIONS_ENABLED (b : build_config) : bool :=
  defined (cpp_exceptions b)
  || defined_and_nonzero (EXCEPTIONS b)
  || defined_and_nonzero (CPPUNWIND b).

(** ** Outcomes of a call *)

(** How [THROW_OR_PANIC] leaves the caller. *)
Inductive failure : Type :=
| runtime_error (what : string)   (* throw std::runtime_error(what) *)
| process_abort.                  (* std::abort() *)

Inductive outcome (A : Type) : Type :=
| Returned (a : A)                (* normal return *)
| Signaled (f : failure)          (* left through THROW_OR_PANIC *)
| Undefined                       (* access outside a span *)
| IllFormed (msg : string)        (* a static_assert failed *)
| OutOfFuel.                      (* loop bound of the model exhausted *)

Arguments Returned {A} a.
Arguments Signaled {A} f.
Arguments Undefined {A}.
Arguments IllFormed {A} msg.
Arguments OutOfFuel {A}.

(** Computations over a store [St]: the store is kept on every outcome, so
    that what a failed call left behind can be observed. *)
Definition M (St A : Type) : Type := St -> outcome A * St.

#[export] Instance M_ret {St} : MRet (M St) :=
  fun A (a : A) s => (Returned a, s).

#[export] Instance M_bind {St} : MBind (M St) :=
  fun A B (k : A -> M St B) (m : M St A) s =>
    match m s with
    | (Returned a, s') => k a s'
    | (Signaled f, s') => (Signaled f, s')
    | (Undefined, s') => (Undefined, s')
    | (IllFormed msg, s') => (IllFormed msg, s')
    | (OutOfFuel, s') => (OutOfFuel, s')
    end.

(** [if (c) { body }] *)
Definition when {St} (c : bool) (body : M St unit) : M St unit :=
  if c then body else mret tt.

(** [static_assert(c, msg)] *)
Definition static_assert {St} (c : bool) (msg : string) : M St unit :=
  fun s => if c then (Returned tt, s) else (IllFormed msg, s).

(** ** THROW_OR_PANIC (lines 29-36) *)

Definition THROW_OR_PANIC {St} (b : build_config) (message : string) : M St unit :=
  fun s =>
    if EXCEPTIONS_ENABLED b
    then (Signaled (runtime_error message), s)
    else (Signaled process_abort, s).

(** ** std::size_t *)

Section SizeT.

(** Width of [std::size_t] on the target. *)
Variable size_bits : positive.

Definition SIZE_MOD : Z := 2 ^ Z.pos size_bits.
Definition SIZE_MAX : Z := SIZE_MOD - 1.

Definition wrap (z : Z) : Z := z mod SIZE_MOD.

Definition size_add (a b : Z) : Z := wrap (a + b).
Definition size_sub (a b : Z) : Z := wrap (a - b).
Definition size_div (a b : Z) : Z := a / b.

(** [(size - StartIdx + N - 1) / N], evaluated left to right in
    [std::size_t]: the expression of lines 59 and 82. *)
Definition required_size (size StartIdx N : Z) : Z :=
  size_div (size_sub (size_add (size_sub size StartIdx) N) 1) N.

End SizeT.

(** ** Spans *)

Section Span.

Context {T : Type}.

(** [std::size(s)], [s.size()] *)
Definition size (s : list T) : Z := Z.of_nat (length s).

(** [s.empty()] *)
Definition empty (s : list T) : bool := size s =? 0.

(** [source[i]] as an rvalue. The source is not written to: source and
    destination are taken to view disjoint storage. *)
Definition read (source : list T) (i : Z) : M (list T) T :=
  fun destination =>
    if (0 <=? i) && (i <? size source)
    then match source !! Z.to_nat i with
         | Some x => (Returned x, destination)
         | None => (Undefined, destination)
         end
    else (Undefined, destination).

(** [destination[destIndex] = x] *)
Definition write (destIndex : Z) (x : T) : M (list T) unit :=
  fun destination =>
    if (0 <=? destIndex) && (destIndex <? size destination)
    then (Returned tt, <[Z.to_nat destIndex := x]> destination)
    else (Undefined, destination).

Definition out_of_fuel {A} : M (list T) A :=
  fun destination => (OutOfFuel, destination).

End Span.

(** ** Floating-point accumulation *)

Section Accumulate.

Context {T : Type}.

(** [init + *first] as it is assigned back to [init], a [double]: the sum
    is formed in the type the usual arithmetic conversions give [double]
    and the element type, and the assignment converts it to [double]. *)
Variable plus : float -> T -> float.

(** [std::accumulate(first, last, init)] with [init] of type [double]:
    [for (; first != last; ++first) init = std::move(init) + *first;] *)
Fixpoint accumulate (source : list T) (init : float) : float :=
  match source with
  | [] => init
  | x :: rest => accumulate rest (plus init x)
  end.

(** The conversion of a [std::size_t] to [double] in [double / size_t]:
    the nearest [double], ties to even. *)
Definition double_of_size (k : Z) : float :=
  SF2Prim (binary_normalize prec emax k 0 false).

End Accumulate.

(** [init + *first] for an element type that the usual arithmetic
    conversions bring to [double] (the integer types, [float], [double]):
    the element is converted and the sum is formed in [double]. For
    [double] elements this is [PrimFloat.add]. *)
Definition plus_converted {T} (to_double : T -> float) : float -> T -> float :=
  fun init x => (init + to_double x)%float.

(** [long double] as the x87 extended format: 64 bits of precision and 15
    bits of exponent. *)
Definition x87_prec : Z := 64.
Definition x87_emax : Z := 16384.

(** The conversion of a [long double] to [double]: the nearest [double],
    ties to even. *)
Definition double_of_long_double (x : spec_float) : float :=
  SF2Prim match x with
          | S754_finite s m e => binary_round prec emax s m e
          | _ => x
          end.

(** [init + *first] for [long double] elements: [init] is converted to
    [long double], which is exact, the sum is formed and rounded in
    [long double], and the assignment rounds it again to [double]. *)
Definition plus_long_double : float -> spec_float -> float :=
  fun init x => double_of_long_double (SFadd x87_prec x87_emax (Prim2SF init) x).

(** ** copy_every_nth and mean, static extent (lines 50-68 and 105-111) *)

Module Static.
Section WithTarget.

Variable size_bits : positive.
Context {T : Type}.

(** The [for] loop of lines 62-67, from the state [(i, destIndex)]; it
    yields the state in which its condition failed. Every iteration
    advances [destIndex], which the condition keeps below [DestExtent]. *)
Fixpoint copy_loop (fuel : nat) (N SourceExtent DestExtent : Z)
    (source : list T) (i destIndex : Z) : M (list T) (Z * Z) :=
  match fuel with
  | O => out_of_fuel
  | S fuel' =>
      if (i <? SourceExtent) && (destIndex <? DestExtent)
      then x ← read source i;
           write destIndex x ;;
           copy_loop fuel' N SourceExtent DestExtent source
             (size_add size_bits i N) (size_add size_bits destIndex 1)
      else mret (i, destIndex)
  end.

Definition copy_every_nth (N StartIdx : Z) (source : list T)
    : M (list T) unit :=
  fun destination =>
    let SourceExtent := size source in
    let DestExtent := size destination in
    (static_assert ((StartIdx <? SourceExtent) && (StartIdx >=? 0))
       "StartIdx must be within the source extent" ;;
     static_assert (N >? 0) "N must be greater than 0" ;;
     static_assert
       (required_size size_bits SourceExtent StartIdx N <=? DestExtent)
       "Destination extent may not be sufficient" ;;
     copy_loop (S (length destination)) N SourceExtent DestExtent
       source StartIdx 0 ;;
     mret tt) destination.

End WithTarget.

(** [mean] over a span of static extent (lines 105-111). *)
Definition mean {T St} (plus : float -> T -> float) (source : list T)
    : M St float :=
  let Extent := size source in
  static_assert (Extent >? 0) "Source container must be non-empty" ;;
  mret (accumulate plus source 0 / double_of_size Extent)%float.

End Static.

(** ** copy_every_nth and mean, dynamic extent (lines 70-95 and 113-124) *)

Module Dynamic.
Section WithTarget.

Variable size_bits : positive.
Variable build : build_config.
Context {T : Type}.

(** The [for] loop of lines 90-94. Its condition tests the source only;
    an iteration whose [destIndex] is outside the destination is
    undefined, so [length destination] iterations are the most that run. *)
Fixpoint copy_loop (fuel : nat) (N : Z) (source : list T)
    (i destIndex : Z) : M (list T) (Z * Z) :=
  match fuel with
  | O => out_of_fuel
  | S fuel' =>
      if i <? size source
      then x ← read source i;
           write destIndex x ;;
           copy_loop fuel' N source
             (size_add size_bits i N) (size_add size_bits destIndex 1)
      else mret (i, destIndex)
  end.

Definition copy_every_nth (N StartIdx : Z) (source : list T)
    : M (list T) unit :=
  fun destination =>
    (static_assert (N >? 0) "N must be greater than 0" ;;
     when ((StartIdx >? size source) || (StartIdx <? 0))
       (THROW_OR_PANIC build "Invalid start index") ;;
     let requiredSize := required_size size_bits (size source) StartIdx N in
     when (requiredSize >? size destination)
       (THROW_OR_PANIC build
          "Destination container does not have sufficient size, ") ;;
     copy_loop (S (length destination)) N source StartIdx 0 ;;
     mret tt) destination.

End WithTarget.

(** [mean] over a span of dynamic extent (lines 113-124). *)
Definition mean {T St} (build : build_config) (plus : float -> T -> float)
    (source : list T) : M St float :=
  when (empty source)
    (THROW_OR_PANIC build "Source container must be non-empty") ;;
  mret (accumulate plus source 0
        / double_of_size (size source))%float.

End Dynamic.

(** ** Reference notions of the specification *)

(** [ceil(a / b)] over the integers, for [b > 0]. *)
Definition ceil_div (a b : Z) : Z := (a + b - 1) / b.

(** Number of elements a strided copy with stride [N] still has to take
    from [source] once it stands at index [i]. *)
Definition remaining {T} (N : Z) (source : list T) (i : Z) : Z :=
  Z.max 0 (ceil_div (size source - i) N).

(** The mean as the specification words it: the sum of the elements,
    accumulated in floating point from zero, divided by their number. *)
Definition float_sum {T} (plus : float -> T -> float) (l : list T) : float :=
  fold_left plus l 0%float.

Definition spec_mean {T} (plus : float -> T -> float) (l : list T) : float :=
  (float_sum plus l / double_of_size (Z.of_nat (length l)))%float.

(** ** Concrete builds and targets used in the examples *)

(** A build with exceptions: [__cpp_exceptions] is defined. *)
Definition with_exceptions : build_config :=
  {| cpp_exceptions := Some 199711; EXCEPTIONS := Some 1; CPPUNWIND := None |}.

(** A build with [-fno-exceptions]: none of the macros is defined. *)
Definition no_exceptions : build_config :=
  {| cpp_exceptions := None; EXCEPTIONS := None; CPPUNWIND := None |}.

(** A target whose [std::size_t] has 64 bits. *)
Definition bits64 : positive := 64%positive.

(** Whether an outcome is a thrown exception, a process abort. *)
Definition throws {A} (o : outcome A) : bool :=
  match o with Signaled (runtime_error _) => true | _ => false end.

Definition aborts {A} (o : outcome A) : bool :=
  match o with Signaled process_abort => true | _ => false end.

(** The result [r] of a call made in store [s] is what a call of
    [THROW_OR_PANIC] with [message] leaves there. *)
Definition signaled_by {A St} (b : build_config) (message : string) (s : St)
    (r : outcome A * St) : Prop :=
  exists f, THROW_OR_PANIC b message s = (Signaled f, s) /\ r = (Signaled f, s).

(** * Properties *)

(** ** THROW_OR_PANIC *)

Lemma THROW_OR_PANIC_Signaled {St} b msg (s : St) :
  exists f, THROW_OR_PANIC b msg s = (Signaled f, s).
Proof. unfold THROW_OR_PANIC. destruct (EXCEPTIONS_ENABLED b); eauto. Qed.

(** C6. [THROW_OR_PANIC] never returns to its caller. In a build in which
    [EXCEPTIONS_ENABLED] is defined it throws a [runtime_error] that carries
    the message; in any other build it aborts the process. Which of the two
    happens is a function of the build alone: two calls in one build, with
    whatever messages, leave in the same way. *)
Theorem THROW_OR_PANIC_never_returns
    {St} (b : build_config) (message : string) (s : St) :
  (forall v s', THROW_OR_PANIC b message s <> (Returned v, s'))
  /\ (EXCEPTIONS_ENABLED b = true ->
      THROW_OR_PANIC b message s = (Signaled (runtime_error message), s))
  /\ (EXCEPTIONS_ENABLED b = false ->
      THROW_OR_PANIC b message s = (Signaled process_abort, s))
  /\ (forall message' (s' : St),
        throws (THROW_OR_PANIC b message' s').1
          = throws (THROW_OR_PANIC b message s).1
        /\ aborts (THROW_OR_PANIC b message' s').1
          = aborts (THROW_OR_PANIC b message s).1).
Proof.
  unfold THROW_OR_PANIC.
  destruct (EXCEPTIONS_ENABLED b); repeat split; intros; try discriminate; auto.
Qed.

Lemma THROW_OR_PANIC_never_returns_witness :
  EXCEPTIONS_ENABLED with_exceptions = true
  /\ EXCEPTIONS_ENABLED no_exceptions = false
  /\ THROW_OR_PANIC with_exceptions "Invalid start index" tt
       = (Signaled (runtime_error "Invalid start index"), tt)
  /\ THROW_OR_PANIC no_exceptions "Invalid start index" tt
       = (Signaled process_abort, tt).
Proof.
  split; [reflexivity|]. split; [reflexivity|]. split.
  - apply (THROW_OR_PANIC_never_returns with_exceptions "Invalid start index" tt).
    reflexivity.
  - apply (THROW_OR_PANIC_never_returns no_exceptions "Invalid start index" tt).
    reflexivity.
Defined.

(** ** mean *)

Lemma accumulate_fold_left {T} (plus : float -> T -> float) (l : list T) init :
  accumulate plus l init = fold_left plus l init.
Proof. revert init. induction l as [|x l IH]; intros init; simpl; auto. Qed.

Lemma empty_nil {T} (l : list T) : empty l = true <-> l = [].
Proof.
  unfold empty, size. destruct l; simpl; split; intros H; done.
Qed.

(** C4. On a nonempty source both overloads of [mean] return, and what they
    return is the sum of the elements, accumulated in floating point from
    zero in the order of the span, divided by the number of elements. This
    holds for every element type, [plus] being the sum [init + *first] of
    that type as the [double] accumulator receives it. The mean of
    [2.0, 4.0, 6.0] is [4.0]. *)
Theorem mean_is_sum_over_count
    {T St} (b : build_config) (plus : float -> T -> float)
    (source : list T) (s : St) :
  source <> [] ->
  Static.mean plus source s = (Returned (spec_mean plus source), s)
  /\ Dynamic.mean b plus source s
     = (Returned (spec_mean plus source), s)
  /\ spec_mean PrimFloat.add [2; 4; 6]%float = 4%float.
Proof.
  intros Hne.
  assert (Hsz : (size source >? 0) = true).
  { unfold size. destruct source; [done|]. simpl length. apply Z.gtb_lt. lia. }
  assert (Hem : empty source = false).
  { destruct (empty source) eqn:E; [|done]. apply empty_nil in E. done. }
  unfold Static.mean, Dynamic.mean, spec_mean, float_sum.
  rewrite !accumulate_fold_left.
  split; [|split].
  - rewrite Hsz. reflexivity.
  - rewrite Hem. reflexivity.
  - vm_compute. reflexivity.
Qed.

Lemma mean_is_sum_over_count_witness :
  Static.mean PrimFloat.add [2; 4; 6]%float tt = (Returned 4%float, tt)
  /\ Dynamic.mean no_exceptions PrimFloat.add [2; 4; 6]%float tt = (Returned 4%float, tt).
Proof.
  assert (H : [2; 4; 6]%float <> []) by discriminate.
  destruct (mean_is_sum_over_count no_exceptions PrimFloat.add [2; 4; 6]%float tt H)
    as (H1 & H2 & H3).
  rewrite H3 in H1, H2. split; assumption.
Defined.

(** With [long double] elements the sum is formed in [long double] and
    rounded again on assignment to the [double] accumulator: the mean of
    [1, 0x1.001p-53] is [0.5], where converting the elements to [double]
    first would give the next [double] above [0.5]. *)
Example mean_of_long_double_rounds_twice :
  let source := [S754_finite false 1 0; S754_finite false 4097 (-65)] in
  Static.mean plus_long_double source tt = (Returned 0.5%float, tt)
  /\ Dynamic.mean with_exceptions plus_long_double source tt
     = (Returned 0.5%float, tt)
  /\ Static.mean (plus_converted double_of_long_double) source tt
     = (Returned 0x1.0000000000001p-1%float, tt).
Proof. cbv zeta. repeat split; vm_compute; reflexivity. Qed.

(** With [int] elements each element is converted to [double] before it
    is added. *)
Example mean_of_integers :
  Static.mean (plus_converted double_of_size) [1; 2; 4] tt
  = (Returned (7 / 3)%float, tt).
Proof. vm_compute. reflexivity. Qed.

(** C5. The dynamic-extent [mean] leaves through [THROW_OR_PANIC], called
    with the message "Source container must be non-empty", exactly when the
    source is empty; on a nonempty source it returns a value and signals
    nothing. *)
Theorem mean_signals_iff_empty
    {T St} (b : build_config) (plus : float -> T -> float)
    (source : list T) (s : St) :
  (signaled_by b "Source container must be non-empty" s
     (Dynamic.mean b plus source s) <-> source = [])
  /\ ((exists f, (Dynamic.mean b plus source s).1 = Signaled f)
      <-> source = [])
  /\ (source <> [] ->
      exists v, Dynamic.mean b plus source s = (Returned v, s)).
Proof.
  unfold Dynamic.mean, signaled_by, mbind, M_bind, when.
  destruct source as [|x l].
  - change (empty (@nil T)) with true.
    destruct (THROW_OR_PANIC_Signaled (St := St) b
                "Source container must be non-empty" s) as [f Hf].
    rewrite Hf. split; [|split].
    + split; [done|]. intros _. exists f. done.
    + split; [done|]. intros _. exists f. done.
    + done.
  - assert (Hem : empty (x :: l) = false).
    { destruct (empty (x :: l)) eqn:E; [|done]. apply empty_nil in E. done. }
    rewrite Hem. split; [|split].
    + split; [|done]. intros (f & _ & H). discriminate H.
    + split; [|done]. intros (f & H). discriminate H.
    + intros _. eexists. reflexivity.
Qed.

Lemma mean_signals_iff_empty_witness :
  exists v, Dynamic.mean with_exceptions PrimFloat.add [2; 4; 6]%float tt
            = (Returned v, tt).
Proof.
  apply (mean_signals_iff_empty with_exceptions PrimFloat.add
           [2; 4; 6]%float tt).
  discriminate.
Defined.

(** ** Integer ceiling and [std::size_t] arithmetic *)

Lemma ceil_div_spec a b :
  0 < b -> (ceil_div a b - 1) * b < a <= ceil_div a b * b.
Proof.
  intros Hb. unfold ceil_div.
  pose proof (Z.div_mod (a + b - 1) b ltac:(lia)) as Hdm.
  pose proof (Z.mod_pos_bound (a + b - 1) b Hb) as Hm.
  nia.
Qed.

Lemma ceil_div_step a b : 0 < b -> ceil_div (a - b) b = ceil_div a b - 1.
Proof.
  intros Hb. unfold ceil_div.
  replace (a - b + b - 1) with (a + b - 1 + (-1) * b) by ring.
  rewrite Z.div_add by lia. ring.
Qed.

Lemma ceil_div_pos a b : 0 < b -> 0 < a -> 0 < ceil_div a b.
Proof. intros Hb Ha. pose proof (ceil_div_spec a b Hb). nia. Qed.

Lemma ceil_div_nonpos a b : 0 < b -> a <= 0 -> ceil_div a b <= 0.
Proof. intros Hb Ha. pose proof (ceil_div_spec a b Hb). nia. Qed.

Lemma size_length_insert {T} (l : list T) n x : size (<[n := x]> l) = size l.
Proof. unfold size. now rewrite length_insert. Qed.

Lemma size_nonneg {T} (l : list T) : 0 <= size l.
Proof. unfold size. lia. Qed.

Section SizeFacts.

Variable size_bits : positive.

Lemma SIZE_MOD_pos : 0 < SIZE_MOD size_bits.
Proof. unfold SIZE_MOD. apply Z.pow_pos_nonneg; lia. Qed.

Lemma size_add_no_wrap a b :
  0 <= a + b < SIZE_MOD size_bits -> size_add size_bits a b = a + b.
Proof. intros H. unfold size_add, wrap. now apply Z.mod_small. Qed.

(** Without wrap-around the expression of lines 59 and 82 is the ceiling
    of [(size - StartIdx) / N]. *)
Lemma required_size_no_wrap sz StartIdx N :
  0 <= sz - StartIdx + N - 1 < SIZE_MOD size_bits ->
  required_size size_bits sz StartIdx N = ceil_div (sz - StartIdx) N.
Proof.
  intros H. unfold required_size, size_div, size_sub, size_add, wrap, ceil_div.
  rewrite Zplus_mod_idemp_l, Zminus_mod_idemp_l.
  now rewrite Z.mod_small by lia.
Qed.

End SizeFacts.

(** ** The accesses *)

Section AccessFacts.

Context {T : Type}.

Lemma read_in_range (source : list T) i x (destination : list T) :
  0 <= i -> source !! Z.to_nat i = Some x ->
  read source i destination = (Returned x, destination).
Proof.
  intros Hi Hx. unfold read.
  pose proof (lookup_lt_Some _ _ _ Hx) as Hlt.
  assert (Hc : (0 <=? i) && (i <? size source) = true).
  { unfold size. apply andb_true_iff. split; [apply Z.leb_le|apply Z.ltb_lt]; lia. }
  now rewrite Hc, Hx.
Qed.

Lemma read_Some (source : list T) i :
  0 <= i < size source -> exists x, source !! Z.to_nat i = Some x.
Proof.
  intros Hi. apply lookup_lt_is_Some. unfold size in Hi. lia.
Qed.

Lemma write_in_range destIndex (x : T) (destination : list T) :
  0 <= destIndex < size destination ->
  write destIndex x destination
  = (Returned tt, <[Z.to_nat destIndex := x]> destination).
Proof.
  intros Hd. unfold write.
  assert (Hc : (0 <=? destIndex) && (destIndex <? size destination) = true).
  { apply andb_true_iff. split; [apply Z.leb_le|apply Z.ltb_lt]; lia. }
  now rewrite Hc.
Qed.

Lemma write_out_of_range destIndex (x : T) (destination : list T) :
  size destination <= destIndex ->
  write destIndex x destination = (Undefined, destination).
Proof.
  intros Hd. unfold write.
  assert (Hc : (destIndex <? size destination) = false) by (apply Z.ltb_ge; lia).
  rewrite Hc, andb_false_r. reflexivity.
Qed.

End AccessFacts.

(** ** The copy loops, one iteration at a time *)

Section LoopSteps.

Variable size_bits : positive.
Context {T : Type}.

Lemma dynamic_loop_exit fuel N (source : list T) i d dest :
  size source <= i ->
  Dynamic.copy_loop size_bits (S fuel) N source i d dest
  = (Returned (i, d), dest).
Proof.
  intros Hi. simpl.
  assert (Hc : (i <? size source) = false) by (apply Z.ltb_ge; lia).
  now rewrite Hc.
Qed.

Lemma dynamic_loop_step fuel N (source : list T) i d dest x :
  0 <= i -> source !! Z.to_nat i = Some x -> 0 <= d < size dest ->
  Dynamic.copy_loop size_bits (S fuel) N source i d dest
  = Dynamic.copy_loop size_bits fuel N source
      (size_add size_bits i N) (size_add size_bits d 1)
      (<[Z.to_nat d := x]> dest).
Proof.
  intros Hi Hx Hd. simpl.
  pose proof (lookup_lt_Some _ _ _ Hx) as Hlt.
  assert (Hc : (i <? size source) = true) by (unfold size; apply Z.ltb_lt; lia).
  rewrite Hc. unfold mbind at 1, M_bind at 1.
  rewrite (read_in_range source i x dest Hi Hx).
  unfold mbind at 1, M_bind at 1.
  now rewrite (write_in_range d x dest Hd).
Qed.

Lemma dynamic_loop_overrun fuel N (source : list T) i d dest :
  0 <= i < size source -> size dest <= d ->
  Dynamic.copy_loop size_bits (S fuel) N source i d dest = (Undefined, dest).
Proof.
  intros Hi Hd. simpl.
  assert (Hc : (i <? size source) = true) by (apply Z.ltb_lt; lia).
  rewrite Hc. destruct (read_Some source i Hi) as [x Hx].
  unfold mbind at 1, M_bind at 1.
  rewrite (read_in_range source i x dest ltac:(lia) Hx).
  unfold mbind at 1, M_bind at 1.
  now rewrite (write_out_of_range d x dest Hd).
Qed.

Lemma static_loop_exit fuel N SE DE (source : list T) i d dest :
  SE <= i \/ DE <= d ->
  Static.copy_loop size_bits (S fuel) N SE DE source i d dest
  = (Returned (i, d), dest).
Proof.
  intros H. simpl.
  assert (Hc : (i <? SE) && (d <? DE) = false).
  { apply andb_false_iff. destruct H; [left|right]; apply Z.ltb_ge; lia. }
  now rewrite Hc.
Qed.

Lemma static_loop_step fuel N DE (source : list T) i d dest x :
  0 <= i -> source !! Z.to_nat i = Some x -> 0 <= d < size dest -> d < DE ->
  Static.copy_loop size_bits (S fuel) N (size source) DE source i d dest
  = Static.copy_loop size_bits fuel N (size source) DE source
      (size_add size_bits i N) (size_add size_bits d 1)
      (<[Z.to_nat d := x]> dest).
Proof.
  intros Hi Hx Hd HDE. simpl.
  pose proof (lookup_lt_Some _ _ _ Hx) as Hlt.
  assert (Hc : (i <? size source) && (d <? DE) = true).
  { unfold size. apply andb_true_iff. split; apply Z.ltb_lt; lia. }
  rewrite Hc. unfold mbind at 1, M_bind at 1.
  rewrite (read_in_range source i x dest Hi Hx).
  unfold mbind at 1, M_bind at 1.
  now rewrite (write_in_range d x dest Hd).
Qed.

End LoopSteps.

(** ** The copy loops when no index wraps around *)

Section LoopNoWrap.

Variable size_bits : positive.
Context {T : Type}.
Variable N : Z.
Variable source : list T.
Hypothesis N_pos : 0 < N.
Hypothesis no_wrap : size source + N <= SIZE_MOD size_bits.

Lemma remaining_exhausted i : size source <= i -> remaining N source i = 0.
Proof.
  intros Hi. unfold remaining.
  pose proof (ceil_div_nonpos (size source - i) N N_pos ltac:(lia)). lia.
Qed.

Lemma remaining_step i :
  i < size source -> remaining N source i = 1 + remaining N source (i + N).
Proof.
  intros Hi. unfold remaining.
  replace (size source - (i + N)) with (size source - i - N) by ring.
  rewrite ceil_div_step by exact N_pos.
  pose proof (ceil_div_pos (size source - i) N N_pos ltac:(lia)). lia.
Qed.

Lemma remaining_in_source i j :
  0 <= j < remaining N source i -> i + j * N < size source.
Proof.
  unfold remaining. intros Hj.
  pose proof (ceil_div_spec (size source - i) N N_pos). nia.
Qed.

(** From the state [(i, d)] the dynamic-extent loop runs [remaining N source i]
    iterations, writes slot [d + j] from source index [i + j * N], and
    touches nothing else. *)
Lemma dynamic_loop_no_wrap fuel : forall i d (dest : list T),
  0 <= i -> 0 <= d ->
  d + remaining N source i <= size dest -> size dest < SIZE_MOD size_bits ->
  (Z.to_nat (remaining N source i) < fuel)%nat ->
  exists dest',
    Dynamic.copy_loop size_bits fuel N source i d dest
    = (Returned (i + remaining N source i * N, d + remaining N source i), dest')
    /\ length dest' = length dest
    /\ (forall j, 0 <= j < remaining N source i ->
          dest' !! Z.to_nat (d + j) = source !! Z.to_nat (i + j * N))
    /\ (forall n : nat, Z.of_nat n < d \/ d + remaining N source i <= Z.of_nat n ->
          dest' !! n = dest !! n).
Proof.
  induction fuel as [|fuel IH]; intros i d dest Hi Hd Hcap Hdest Hfuel; [lia|].
  destruct (Z_lt_le_dec i (size source)) as [Hlt|Hge].
  - destruct (read_Some source i ltac:(lia)) as [x Hx].
    pose proof (remaining_step i Hlt) as Hrem.
    assert (0 <= remaining N source (i + N)) by (unfold remaining; lia).
    rewrite (dynamic_loop_step size_bits fuel N source i d dest x Hi Hx)
      by lia.
    rewrite !size_add_no_wrap by lia.
    destruct (IH (i + N) (d + 1) (<[Z.to_nat d := x]> dest))
      as (dest' & Hrun & Hlen & Hcopied & Hkept);
      try rewrite size_length_insert; try lia.
    exists dest'. rewrite Hrun, Hrem. split; [do 3 f_equal; ring|].
    split; [now rewrite Hlen, length_insert|]. split.
    + intros j Hj. destruct (Z.eq_dec j 0) as [->|Hj0].
      * rewrite Z.add_0_r, Z.mul_0_l, Z.add_0_r, Hx.
        rewrite Hkept by lia.
        apply list_lookup_insert_eq. unfold size in Hcap. lia.
      * replace (d + j) with (d + 1 + (j - 1)) by ring.
        replace (i + j * N) with (i + N + (j - 1) * N) by ring.
        apply Hcopied. lia.
    + intros n Hn. rewrite Hkept by lia.
      apply list_lookup_insert_ne. lia.
  - rewrite (dynamic_loop_exit size_bits fuel N source i d dest Hge).
    rewrite (remaining_exhausted i Hge).
    exists dest. split; [do 3 f_equal; ring|].
    split; [reflexivity|]. split; [intros j Hj; lia|reflexivity].
Qed.

(** Where the destination can hold what remains, the destination bound of
    the static-extent loop never decides: the loop is the dynamic one. *)
Lemma static_loop_no_wrap fuel : forall i d (dest : list T),
  0 <= i -> 0 <= d ->
  d + remaining N source i <= size dest -> size dest < SIZE_MOD size_bits ->
  Static.copy_loop size_bits fuel N (size source) (size dest) source i d dest
  = Dynamic.copy_loop size_bits fuel N source i d dest.
Proof.
  induction fuel as [|fuel IH]; intros i d dest Hi Hd Hcap Hdest; [reflexivity|].
  destruct (Z_lt_le_dec i (size source)) as [Hlt|Hge].
  - destruct (read_Some source i ltac:(lia)) as [x Hx].
    pose proof (remaining_step i Hlt) as Hrem.
    assert (0 <= remaining N source (i + N)) by (unfold remaining; lia).
    rewrite (dynamic_loop_step size_bits fuel N source i d dest x Hi Hx)
      by lia.
    rewrite (static_loop_step size_bits fuel N (size dest) source i d dest x
               Hi Hx) by lia.
    rewrite !size_add_no_wrap by lia.
    rewrite <- (size_length_insert dest (Z.to_nat d) x) at 1.
    apply IH; try rewrite size_length_insert; lia.
  - rewrite (dynamic_loop_exit size_bits fuel N source i d dest Hge).
    apply static_loop_exit. now left.
Qed.

End LoopNoWrap.

(** ** The loops always finish within the fuel they are given *)

Section LoopFuel.

Variable size_bits : positive.
Context {T : Type}.

Lemma wrap_nonneg z : 0 <= wrap size_bits z.
Proof.
  unfold wrap. apply Z.mod_pos_bound, SIZE_MOD_pos.
Qed.

Lemma dynamic_loop_fuel N (source : list T) fuel : forall i d (dest : list T),
  0 <= i -> 0 <= d -> size dest < SIZE_MOD size_bits ->
  (Z.to_nat (size dest - d) < fuel)%nat ->
  (Dynamic.copy_loop size_bits fuel N source i d dest).1 <> OutOfFuel.
Proof.
  induction fuel as [|fuel IH]; intros i d dest Hi Hd Hdest Hfuel; [lia|].
  destruct (Z_lt_le_dec i (size source)) as [Hlt|Hge].
  - destruct (Z_lt_le_dec d (size dest)) as [Hin|Hout].
    + destruct (read_Some source i ltac:(lia)) as [x Hx].
      rewrite (dynamic_loop_step size_bits fuel N source i d dest x Hi Hx)
        by lia.
      rewrite (size_add_no_wrap size_bits d 1) by lia.
      apply IH; try rewrite size_length_insert; try lia.
      apply wrap_nonneg.
    + rewrite dynamic_loop_overrun by lia. discriminate.
  - rewrite dynamic_loop_exit by lia. discriminate.
Qed.

Lemma static_loop_fuel N (source : list T) fuel : forall i d (dest : list T),
  0 <= i -> 0 <= d -> size dest < SIZE_MOD size_bits ->
  (Z.to_nat (size dest - d) < fuel)%nat ->
  (Static.copy_loop size_bits fuel N (size source) (size dest) source i d dest).1
  <> OutOfFuel.
Proof.
  induction fuel as [|fuel IH]; intros i d dest Hi Hd Hdest Hfuel; [lia|].
  destruct (Z_lt_le_dec i (size source)) as [Hlt|Hge].
  - destruct (Z_lt_le_dec d (size dest)) as [Hin|Hout].
    + destruct (read_Some source i ltac:(lia)) as [x Hx].
      rewrite (static_loop_step size_bits fuel N (size dest) source i d dest x
                 Hi Hx) by lia.
      rewrite (size_add_no_wrap size_bits d 1) by lia.
      rewrite <- (size_length_insert dest (Z.to_nat d) x) at 1.
      apply IH; try rewrite size_length_insert; try lia.
      apply wrap_nonneg.
    + rewrite static_loop_exit by (right; lia). discriminate.
  - rewrite static_loop_exit by (left; lia). discriminate.
Qed.

(** Neither loop signals: the only calls of [THROW_OR_PANIC] are the two
    validations in front of the dynamic-extent loop. *)
Lemma dynamic_loop_not_Signaled N (source : list T) fuel :
  forall i d (dest : list T) f,
  (Dynamic.copy_loop size_bits fuel N source i d dest).1 <> Signaled f.
Proof.
  induction fuel as [|fuel IH]; intros i d dest f; [discriminate|].
  simpl. destruct (i <? size source); [|discriminate].
  unfold mbind at 1, M_bind at 1, read.
  destruct ((0 <=? i) && (i <? size source)); [|discriminate].
  destruct (source !! Z.to_nat i) as [x|]; [|discriminate].
  unfold mbind at 1, M_bind at 1, write.
  destruct ((0 <=? d) && (d <? size dest)); [|discriminate].
  apply IH.
Qed.

End LoopFuel.

(** ** copy_every_nth on inputs whose indices do not wrap around *)

Section CopyNoWrap.

Variable size_bits : positive.
Variable build : build_config.
Context {T : Type}.
Variable N StartIdx : Z.
Variable source destination : list T.
Hypothesis N_pos : 0 < N.
Hypothesis no_wrap : size source + N <= SIZE_MOD size_bits.
Hypothesis start_in_source : 0 <= StartIdx <= size source.
Hypothesis dest_size : size destination < SIZE_MOD size_bits.

Lemma remaining_from_start :
  remaining N source StartIdx = ceil_div (size source - StartIdx) N.
Proof.
  unfold remaining.
  pose proof (ceil_div_spec (size source - StartIdx) N N_pos). nia.
Qed.

Lemma required_size_is_ceiling :
  required_size size_bits (size source) StartIdx N
  = ceil_div (size source - StartIdx) N.
Proof. apply required_size_no_wrap. lia. Qed.

(** Once both validations have passed, the dynamic-extent call is its
    loop. *)
Lemma dynamic_validated :
  required_size size_bits (size source) StartIdx N <= size destination ->
  Dynamic.copy_every_nth size_bits build N StartIdx source destination
  = (Dynamic.copy_loop size_bits (S (length destination)) N source StartIdx 0
       ;; mret tt) destination.
Proof.
  intros Hreq. unfold Dynamic.copy_every_nth.
  assert (H1 : (N >? 0) = true) by (apply Z.gtb_lt; lia).
  assert (H2 : (StartIdx >? size source) || (StartIdx <? 0) = false).
  { apply orb_false_iff. split; [rewrite Z.gtb_ltb|]; apply Z.ltb_ge; lia. }
  assert (H3 : (required_size size_bits (size source) StartIdx N
                >? size destination) = false).
  { rewrite Z.gtb_ltb. apply Z.ltb_ge. lia. }
  rewrite H1, H2, H3. reflexivity.
Qed.

(** The capacity validation signals exactly when the destination is shorter
    than the ceiling of [(size - StartIdx) / N]. *)
Lemma dynamic_capacity_no_wrap :
  signaled_by build "Destination container does not have sufficient size, "
    destination
    (Dynamic.copy_every_nth size_bits build N StartIdx source destination)
  <-> size destination < ceil_div (size source - StartIdx) N.
Proof.
  rewrite <- required_size_is_ceiling. split.
  - intros (f & _ & Hrun).
    destruct (Z_lt_le_dec (size destination)
                (required_size size_bits (size source) StartIdx N))
      as [Hlt|Hge]; [exact Hlt|].
    rewrite (dynamic_validated Hge) in Hrun.
    exfalso.
    apply (dynamic_loop_not_Signaled size_bits N source
             (S (length destination)) StartIdx 0 destination f).
    unfold mbind, M_bind, mret, M_ret in Hrun.
    destruct (Dynamic.copy_loop size_bits (S (length destination)) N source
                StartIdx 0 destination) as [[ | | | | ] d']; simpl in *;
      congruence.
  - intros Hlt. unfold Dynamic.copy_every_nth, signaled_by.
    assert (H1 : (N >? 0) = true) by (apply Z.gtb_lt; lia).
    assert (H2 : (StartIdx >? size source) || (StartIdx <? 0) = false).
    { apply orb_false_iff. split; [rewrite Z.gtb_ltb|]; apply Z.ltb_ge; lia. }
    assert (H3 : (required_size size_bits (size source) StartIdx N
                  >? size destination) = true) by (apply Z.gtb_lt; lia).
    rewrite H1, H2, H3.
    destruct (THROW_OR_PANIC_Signaled (St := list T) build
      "Destination container does not have sufficient size, " destination)
      as [f Hf].
    exists f. split; [exact Hf|].
    unfold mbind, M_bind, static_assert, when, mret, M_ret. now rewrite Hf.
Qed.

(** With a destination that can hold them, the dynamic-extent copy returns
    having written [ceil((size - StartIdx) / N)] elements: slot [j] holds
    the source element at [StartIdx + j * N], and the slots behind them are
    as they were. *)
Lemma dynamic_copy_no_wrap :
  ceil_div (size source - StartIdx) N <= size destination ->
  exists destination',
    Dynamic.copy_every_nth size_bits build N StartIdx source destination
    = (Returned tt, destination')
    /\ length destination' = length destination
    /\ (forall j, 0 <= j < ceil_div (size source - StartIdx) N ->
          exists x, source !! Z.to_nat (StartIdx + j * N) = Some x
                    /\ destination' !! Z.to_nat j = Some x)
    /\ (forall n : nat, ceil_div (size source - StartIdx) N <= Z.of_nat n ->
          destination' !! n = destination !! n).
Proof.
  intros Hcap. rewrite dynamic_validated by (rewrite required_size_is_ceiling; lia).
  pose proof remaining_from_start as Hrem.
  destruct (dynamic_loop_no_wrap size_bits N source N_pos no_wrap
              (S (length destination)) StartIdx 0 destination)
    as (dest' & Hrun & Hlen & Hcopied & Hkept);
    try (try rewrite Hrem; unfold size in *; lia).
  exists dest'. unfold mbind, M_bind. rewrite Hrun.
  split; [reflexivity|]. split; [exact Hlen|].
  rewrite Hrem in Hcopied, Hkept. split.
  - intros j Hj.
    assert (Hsrc : StartIdx + j * N < size source).
    { apply (remaining_in_source N source N_pos). lia. }
    destruct (read_Some source (StartIdx + j * N) ltac:(nia)) as [x Hx].
    exists x. split; [exact Hx|].
    rewrite <- Hx. apply (Hcopied j Hj).
  - intros n Hn. apply Hkept. lia.
Qed.

(** The static-extent copy, which demands [StartIdx < size], does the same;
    its loop ends with the source exhausted. *)
Lemma static_copy_no_wrap :
  StartIdx < size source ->
  ceil_div (size source - StartIdx) N <= size destination ->
  (exists destination',
    Static.copy_every_nth size_bits N StartIdx source destination
    = (Returned tt, destination')
    /\ length destination' = length destination
    /\ (forall j, 0 <= j < ceil_div (size source - StartIdx) N ->
          exists x, source !! Z.to_nat (StartIdx + j * N) = Some x
                    /\ destination' !! Z.to_nat j = Some x)
    /\ (forall n : nat, ceil_div (size source - StartIdx) N <= Z.of_nat n ->
          destination' !! n = destination !! n))
  /\ Static.copy_every_nth size_bits N StartIdx source destination
     = Dynamic.copy_every_nth size_bits build N StartIdx source destination
  /\ (exists i d destination',
       Static.copy_loop size_bits (S (length destination)) N (size source)
         (size destination) source StartIdx 0 destination
       = (Returned (i, d), destination')
       /\ size source <= i /\ d = ceil_div (size source - StartIdx) N).
Proof.
  intros Hstart Hcap.
  pose proof remaining_from_start as Hrem.
  assert (Hsame :
    Static.copy_every_nth size_bits N StartIdx source destination
    = Dynamic.copy_every_nth size_bits build N StartIdx source destination).
  { rewrite dynamic_validated by (rewrite required_size_is_ceiling; lia).
    unfold Static.copy_every_nth.
    assert (H1 : (StartIdx <? size source) && (StartIdx >=? 0) = true).
    { apply andb_true_iff. split; [apply Z.ltb_lt|rewrite Z.geb_leb; apply Z.leb_le];
        lia. }
    assert (H2 : (N >? 0) = true) by (apply Z.gtb_lt; lia).
    assert (H3 : (required_size size_bits (size source) StartIdx N
                  <=? size destination) = true).
    { apply Z.leb_le. rewrite required_size_is_ceiling. lia. }
    rewrite H1, H2, H3.
    unfold mbind, M_bind, static_assert.
    rewrite (static_loop_no_wrap size_bits N source N_pos no_wrap)
      by (try rewrite Hrem; lia).
    reflexivity. }
  split; [|split].
  - rewrite Hsame. exact (dynamic_copy_no_wrap Hcap).
  - exact Hsame.
  - rewrite (static_loop_no_wrap size_bits N source N_pos no_wrap)
      by (try rewrite Hrem; lia).
    destruct (dynamic_loop_no_wrap size_bits N source N_pos no_wrap
                (S (length destination)) StartIdx 0 destination)
      as (dest' & Hrun & _); try (try rewrite Hrem; unfold size in *; lia).
    eexists _, _, dest'. split; [exact Hrun|].
    rewrite Hrem.
    pose proof (ceil_div_spec (size source - StartIdx) N N_pos).
    split; lia.
Qed.

End CopyNoWrap.

(** ** The validations of the dynamic-extent copy, in their order *)

Lemma dynamic_copy_cases
    (size_bits : positive) (b : build_config) {T : Type}
    (N StartIdx : Z) (source destination : list T) :
  Dynamic.copy_every_nth size_bits b N StartIdx source destination
  = if N >? 0
    then if (StartIdx >? size source) || (StartIdx <? 0)
         then THROW_OR_PANIC b "Invalid start index" destination
         else if required_size size_bits (size source) StartIdx N
                 >? size destination
              then THROW_OR_PANIC b
                     "Destination container does not have sufficient size, "
                     destination
              else (Dynamic.copy_loop size_bits (S (length destination)) N
                      source StartIdx 0 ;; mret tt) destination
    else (IllFormed "N must be greater than 0", destination).
Proof.
  unfold Dynamic.copy_every_nth.
  destruct (N >? 0); [|reflexivity].
  destruct ((StartIdx >? size source) || (StartIdx <? 0)).
  { destruct (THROW_OR_PANIC_Signaled (St := list T) b "Invalid start index"
                destination) as [f Hf].
    unfold mbind, M_bind, static_assert, when. now rewrite Hf. }
  destruct (required_size size_bits (size source) StartIdx N
            >? size destination); [|reflexivity].
  destruct (THROW_OR_PANIC_Signaled (St := list T) b
              "Destination container does not have sufficient size, "
              destination) as [f Hf].
  unfold mbind, M_bind, static_assert, when, mret, M_ret. now rewrite Hf.
Qed.

(** Both overloads finish within the fuel of the model, wrap-around or
    not: the static-extent loop stops at the end of the destination, the
    dynamic-extent one is undefined from there on. *)
Lemma dynamic_copy_total
    (size_bits : positive) (b : build_config) {T : Type}
    (N StartIdx : Z) (source destination : list T) :
  0 <= StartIdx -> size destination < SIZE_MOD size_bits ->
  (Dynamic.copy_every_nth size_bits b N StartIdx source destination).1
  <> OutOfFuel.
Proof.
  intros Hstart Hdest. rewrite dynamic_copy_cases.
  destruct (THROW_OR_PANIC_Signaled (St := list T) b "Invalid start index"
              destination) as [f1 Hf1].
  destruct (THROW_OR_PANIC_Signaled (St := list T) b
              "Destination container does not have sufficient size, "
              destination) as [f2 Hf2].
  destruct (N >? 0); [|discriminate].
  destruct ((StartIdx >? size source) || (StartIdx <? 0));
    [rewrite Hf1; discriminate|].
  destruct (required_size size_bits (size source) StartIdx N
            >? size destination); [rewrite Hf2; discriminate|].
  pose proof (dynamic_loop_fuel size_bits N source (S (length destination))
                StartIdx 0 destination Hstart ltac:(lia) Hdest) as Hloop.
  unfold mbind, M_bind, mret, M_ret.
  destruct (Dynamic.copy_loop size_bits (S (length destination)) N source
              StartIdx 0 destination) as [[ | | | | ] d'];
    simpl in *; try discriminate.
  exfalso. apply Hloop; [unfold size; lia|reflexivity].
Qed.

Lemma static_copy_total
    (size_bits : positive) {T : Type}
    (N StartIdx : Z) (source destination : list T) :
  0 <= StartIdx -> size destination < SIZE_MOD size_bits ->
  (Static.copy_every_nth size_bits N StartIdx source destination).1
  <> OutOfFuel.
Proof.
  intros Hstart Hdest. unfold Static.copy_every_nth.
  unfold mbind at 1, M_bind at 1, static_assert at 1.
  destruct ((StartIdx <? size source) && (StartIdx >=? 0)); [|discriminate].
  unfold mbind at 1, M_bind at 1, static_assert at 1.
  destruct (N >? 0); [|discriminate].
  unfold mbind at 1, M_bind at 1, static_assert at 1.
  destruct (required_size size_bits (size source) StartIdx N
            <=? size destination); [|discriminate].
  pose proof (static_loop_fuel size_bits N source (S (length destination))
                StartIdx 0 destination Hstart ltac:(lia) Hdest) as Hloop.
  unfold mbind, M_bind, mret, M_ret.
  destruct (Static.copy_loop size_bits (S (length destination)) N
              (size source) (size destination) source StartIdx 0 destination)
    as [[ | | | | ] d']; simpl in *; try discriminate.
  exfalso. apply Hloop; [unfold size; lia|reflexivity].
Qed.

(** ** The examples of the specification *)

Example copy_every_second :
  Dynamic.copy_every_nth bits64 with_exceptions 2 0 [10; 20; 30; 40; 50] [0; 0; 0]
  = (Returned tt, [10; 30; 50])
  /\ Static.copy_every_nth bits64 2 0 [10; 20; 30; 40; 50] [0; 0; 0]
     = (Returned tt, [10; 30; 50]).
Proof. split; vm_compute; reflexivity. Qed.

Example copy_every_third_from_1 :
  ceil_div (size [1; 2; 3; 4] - 1) 3 = 1
  /\ Dynamic.copy_every_nth bits64 with_exceptions 3 1 [1; 2; 3; 4] [0]
     = (Returned tt, [2])
  /\ Static.copy_every_nth bits64 3 1 [1; 2; 3; 4] [0] = (Returned tt, [2]).
Proof. repeat split; vm_compute; reflexivity. Qed.

Example short_destination_rejected :
  Dynamic.copy_every_nth bits64 with_exceptions 2 0 [10; 20; 30; 40; 50] [0; 0]
  = (Signaled (runtime_error
       "Destination container does not have sufficient size, "), [0; 0])
  /\ Static.copy_every_nth bits64 2 0 [10; 20; 30; 40; 50] [0; 0]
     = (IllFormed "Destination extent may not be sufficient", [0; 0]).
Proof. split; vm_compute; reflexivity. Qed.

(** ** The claims about copy_every_nth *)

(** C1. With the largest stride a [std::size_t] holds, [i += N] wraps
    around: from start index 3 of [1, 2, 3, 4] one element is selected,
    [ceil((4 - 3) / N) = 1], yet both overloads go on to indices 2, 1 and 0
    and write four elements. *)
Theorem copy_every_nth_stride_wraps :
  let N := SIZE_MAX bits64 in
  let source := [1; 2; 3; 4] in
  let destination := [0; 0; 0; 0] in
  (0 < N /\ 3 < size source)
  /\ ceil_div (size source - 3) N = 1
  /\ ceil_div (size source - 3) N <= size destination
  /\ Dynamic.copy_every_nth bits64 with_exceptions N 3 source destination
     = (Returned tt, [4; 3; 2; 1])
  /\ Static.copy_every_nth bits64 N 3 source destination
     = (Returned tt, [4; 3; 2; 1]).
Proof.
  cbv zeta.
  assert (HN : SIZE_MAX bits64 = 18446744073709551615) by reflexivity.
  split; [rewrite HN; unfold size; simpl; lia|].
  split; [vm_compute; reflexivity|].
  split; [vm_compute; discriminate|].
  split; vm_compute; reflexivity.
Qed.

(** C2, as the claim has it, fails: with the start index equal to the
    length of the source the dynamic-extent copy returns and signals
    nothing. *)
Lemma start_index_at_end_not_signaled :
  let source := [1; 2; 3; 4] in
  let destination := [0] in
  4 >= size source
  /\ Dynamic.copy_every_nth bits64 with_exceptions 3 4 source destination
     = (Returned tt, destination)
  /\ ~ signaled_by with_exceptions "Invalid start index" destination
         (Dynamic.copy_every_nth bits64 with_exceptions 3 4 source destination).
Proof.
  cbv zeta. split; [vm_compute; discriminate|].
  split; [vm_compute; reflexivity|].
  intros (f & _ & H). vm_compute in H. discriminate H.
Qed.

(** C2, amended. A start index greater than the length of the source makes
    the dynamic-extent copy leave through [THROW_OR_PANIC] with the message
    "Invalid start index", whatever the destination: the capacity is not
    looked at and the destination is not written. *)
Theorem start_index_beyond_end_signaled
    (size_bits : positive) (b : build_config) {T : Type}
    (N StartIdx : Z) (source destination : list T) :
  0 < N -> size source < StartIdx ->
  signaled_by b "Invalid start index" destination
    (Dynamic.copy_every_nth size_bits b N StartIdx source destination).
Proof.
  intros HN Hstart. unfold Dynamic.copy_every_nth, signaled_by.
  assert (H1 : (N >? 0) = true) by (apply Z.gtb_lt; lia).
  assert (H2 : (StartIdx >? size source) || (StartIdx <? 0) = true).
  { apply orb_true_iff. left. apply Z.gtb_lt. lia. }
  rewrite H1, H2.
  destruct (THROW_OR_PANIC_Signaled (St := list T) b "Invalid start index"
              destination) as [f Hf].
  exists f. split; [exact Hf|].
  unfold mbind, M_bind, static_assert, when. now rewrite Hf.
Qed.

Lemma start_index_beyond_end_signaled_witness :
  Dynamic.copy_every_nth bits64 with_exceptions 3 5 [1; 2; 3; 4] ([] : list Z)
  = (Signaled (runtime_error "Invalid start index"), []).
Proof.
  destruct (start_index_beyond_end_signaled bits64 with_exceptions 3 5
              [1; 2; 3; 4] ([] : list Z)) as (f & Hf & Hrun).
  - lia.
  - unfold size. simpl. lia.
  - rewrite Hrun. vm_compute in Hf. congruence.
Defined.

(** C3. With the largest stride a [std::size_t] holds, the sum in
    [(size - StartIdx + N - 1) / N] wraps around and the required size
    comes out as 0 where the ceiling is 1: an empty destination passes the
    capacity validation and the loop writes outside it. With a destination
    of exactly the ceiling, the copy from start index 3 overruns it as
    well. *)
Theorem capacity_check_wraps :
  let N := SIZE_MAX bits64 in
  let source := [1; 2; 3; 4] in
  (ceil_div (size source - 0) N = 1
   /\ required_size bits64 (size source) 0 N = 0
   /\ Dynamic.copy_every_nth bits64 with_exceptions N 0 source []
      = (Undefined, []))
  /\ (ceil_div (size source - 3) N = 1
      /\ Dynamic.copy_every_nth bits64 with_exceptions N 3 source [0]
         = (Undefined, [4])).
Proof. cbv zeta. repeat split; vm_compute; reflexivity. Qed.

(** C7. When the dynamic-extent copy leaves through [THROW_OR_PANIC], it
    does so from one of its two validations and the destination is what it
    was at the call. *)
Theorem signaled_copy_leaves_destination
    (size_bits : positive) (b : build_config) {T : Type}
    (N StartIdx : Z) (source destination : list T) (f : failure) :
  (Dynamic.copy_every_nth size_bits b N StartIdx source destination).1
    = Signaled f ->
  (Dynamic.copy_every_nth size_bits b N StartIdx source destination).2
    = destination
  /\ (signaled_by b "Invalid start index" destination
        (Dynamic.copy_every_nth size_bits b N StartIdx source destination)
      \/ signaled_by b
           "Destination container does not have sufficient size, " destination
           (Dynamic.copy_every_nth size_bits b N StartIdx source destination)).
Proof.
  rewrite dynamic_copy_cases. unfold signaled_by.
  destruct (THROW_OR_PANIC_Signaled (St := list T) b "Invalid start index"
              destination) as [f1 Hf1].
  destruct (THROW_OR_PANIC_Signaled (St := list T) b
              "Destination container does not have sufficient size, "
              destination) as [f2 Hf2].
  destruct (N >? 0); [|discriminate].
  destruct ((StartIdx >? size source) || (StartIdx <? 0)).
  { rewrite Hf1. intros _. split; [reflexivity|]. left. exists f1. done. }
  destruct (required_size size_bits (size source) StartIdx N
            >? size destination).
  { rewrite Hf2. intros _. split; [reflexivity|]. right. exists f2. done. }
  unfold mbind, M_bind, mret, M_ret.
  pose proof (dynamic_loop_not_Signaled size_bits N source
                (S (length destination)) StartIdx 0 destination f) as Hloop.
  destruct (Dynamic.copy_loop size_bits (S (length destination)) N source
              StartIdx 0 destination) as [[ | | | | ] d'];
    simpl in *; intros H; try discriminate H.
  congruence.
Qed.

Lemma signaled_copy_leaves_destination_witness :
  (Dynamic.copy_every_nth bits64 with_exceptions 2 0 [10; 20; 30; 40; 50]
     [7; 8]).2 = [7; 8].
Proof.
  apply (signaled_copy_leaves_destination bits64 with_exceptions 2 0
           [10; 20; 30; 40; 50] [7; 8]
           (runtime_error
              "Destination container does not have sufficient size, ")).
  vm_compute. reflexivity.
Defined.

(** C8, as the claim has it, fails: with the largest stride a
    [std::size_t] holds, the three [static_assert]s accept start index 3 of
    [1, 2, 3, 4] with a destination of one slot, the ceiling of
    [(4 - 3) / N]. After the first iteration [i] has wrapped around to 2,
    still inside the source, and it is [destIndex < DestExtent] that ends
    the loop. *)
Lemma static_bound_ends_wrapped_loop :
  let N := SIZE_MAX bits64 in
  let source := [1; 2; 3; 4] in
  let destination := [0] in
  (3 < size source /\ 0 < N
   /\ ceil_div (size source - 3) N <= size destination)
  /\ Static.copy_every_nth bits64 N 3 source destination = (Returned tt, [4])
  /\ Static.copy_loop bits64 (S (length destination)) N
       (size source) (size destination) source 3 0 destination
     = (Returned (2, 1), [4])
  /\ (2 <? size source) = true
  /\ (1 <? size destination) = false.
Proof.
  cbv zeta.
  assert (HN : SIZE_MAX bits64 = 18446744073709551615) by reflexivity.
  split.
  { split; [unfold size; simpl; lia|]. split; [rewrite HN; lia|].
    vm_compute. discriminate. }
  repeat split; vm_compute; reflexivity.
Qed.

(** C8, amended. The static-extent loop stops when the source is exhausted
    or the destination is full. Under the three [static_assert]s, and where
    [size + N] stays within [std::size_t] so that [i += N] does not wrap
    around, the destination bound never decides: the loop ends in a state
    whose [i] is past the source, after [ceil((size - StartIdx) / N)]
    iterations, and it runs as the loop without the destination bound
    does. *)
Theorem static_loop_exhausts_source
    (size_bits : positive) {T : Type}
    (N StartIdx : Z) (source destination : list T) :
  0 <= StartIdx < size source ->
  0 < N ->
  ceil_div (size source - StartIdx) N <= size destination ->
  size source + N <= SIZE_MOD size_bits ->
  size destination < SIZE_MOD size_bits ->
  (exists i destIndex destination',
     Static.copy_loop size_bits (S (length destination)) N
       (size source) (size destination) source StartIdx 0 destination
     = (Returned (i, destIndex), destination')
     /\ size source <= i
     /\ destIndex = ceil_div (size source - StartIdx) N
     /\ destIndex <= size destination)
  /\ Static.copy_loop size_bits (S (length destination)) N
       (size source) (size destination) source StartIdx 0 destination
     = Dynamic.copy_loop size_bits (S (length destination)) N
         source StartIdx 0 destination.
Proof.
  intros Hstart HN Hcap Hwrap Hdest. split.
  - destruct (static_copy_no_wrap size_bits no_exceptions N StartIdx source
                destination HN Hwrap ltac:(lia) Hdest ltac:(lia) Hcap)
      as (_ & _ & i & d & dest' & Hrun & Hi & Hd).
    exists i, d, dest'. repeat split; try assumption. lia.
  - apply static_loop_no_wrap; try assumption; try lia.
    rewrite (remaining_from_start N StartIdx source HN); lia.
Qed.

Lemma static_loop_exhausts_source_witness :
  exists i destIndex destination',
    Static.copy_loop bits64 2 3 4 1 [1; 2; 3; 4] 1 0 [0]
    = (Returned (i, destIndex), destination')
    /\ 4 <= i /\ destIndex = 1 /\ destIndex <= 1.
Proof.
  apply (static_loop_exhausts_source bits64 3 1 [1; 2; 3; 4] [0]);
    vm_compute; try split; congruence.
Defined.

(** C9. With the largest stride a [std::size_t] holds, both validations
    pass for start index 3 of [1, 2, 3, 4] and a destination of one slot.
    After the first iteration [i] has wrapped around to 2, and the second
    iteration writes [destination[1]], outside the destination. *)
Theorem dynamic_loop_overruns_destination :
  let N := SIZE_MAX bits64 in
  let source := [1; 2; 3; 4] in
  let destination := [0] in
  ((3 >? size source) || (3 <? 0) = false
   /\ (required_size bits64 (size source) 3 N >? size destination) = false)
  /\ Dynamic.copy_loop bits64 (S (length destination)) N source 3 0 destination
     = (Undefined, [4])
  /\ size_add bits64 3 N = 2
  /\ write 1 3 [4] = (Undefined, [4])
  /\ Dynamic.copy_every_nth bits64 with_exceptions N 3 source destination
     = (Undefined, [4]).
Proof. cbv zeta. repeat split; vm_compute; reflexivity. Qed.

(** C10. A start index equal to the length of the source is accepted by
    the dynamic-extent copy: the required size is 0, the loop condition
    fails at once, and the call returns with the destination as it was,
    whatever the destination. *)
Theorem start_index_at_end_accepted
    (size_bits : positive) (b : build_config) {T : Type}
    (N : Z) (source destination : list T) :
  0 < N < SIZE_MOD size_bits ->
  required_size size_bits (size source) (size source) N = 0
  /\ (forall fuel,
        Dynamic.copy_loop size_bits (S fuel) N source (size source) 0
          destination
        = (Returned (size source, 0), destination))
  /\ Dynamic.copy_every_nth size_bits b N (size source) source destination
     = (Returned tt, destination)
  /\ Dynamic.copy_every_nth size_bits b N (size source) source []
     = (Returned tt, []).
Proof.
  intros HN.
  assert (Hreq : required_size size_bits (size source) (size source) N = 0).
  { unfold required_size, size_div, size_sub, size_add, wrap.
    rewrite Z.sub_diag, Z.mod_0_l by (pose proof (SIZE_MOD_pos size_bits); lia).
    rewrite Z.add_0_l, (Z.mod_small N) by lia.
    rewrite Z.mod_small by lia.
    apply Z.div_small. lia. }
  assert (Hrun : forall dest : list T,
    Dynamic.copy_every_nth size_bits b N (size source) source dest
    = (Returned tt, dest)).
  { intros dest. pose proof (size_nonneg source). pose proof (size_nonneg dest).
    rewrite dynamic_validated by lia.
    unfold mbind, M_bind.
    now rewrite dynamic_loop_exit by lia. }
  split; [exact Hreq|]. split; [|split; apply Hrun].
  intros fuel. apply dynamic_loop_exit. lia.
Qed.

Lemma start_index_at_end_accepted_witness :
  Dynamic.copy_every_nth bits64 no_exceptions 3 4 [1; 2; 3; 4] [9]
  = (Returned tt, [9]).
Proof.
  apply (start_index_at_end_accepted bits64 no_exceptions 3 [1; 2; 3; 4] [9]).
  vm_compute. split; reflexivity.
Defined.

(** * Further properties of the header *)

(** ** The static-extent copy on every input *)

Lemma static_copy_cases
    (size_bits : positive) {T : Type}
    (N StartIdx : Z) (source destination : list T) :
  Static.copy_every_nth size_bits N StartIdx source destination
  = if (StartIdx <? size source) && (StartIdx >=? 0)
    then if N >? 0
         then if required_size size_bits (size source) StartIdx N
                 <=? size destination
              then (Static.copy_loop size_bits (S (length destination)) N
                      (size source) (size destination) source StartIdx 0
                    ;; mret tt) destination
              else (IllFormed "Destination extent may not be sufficient",
                    destination)
         else (IllFormed "N must be greater than 0", destination)
    else (IllFormed "StartIdx must be within the source extent", destination).
Proof.
  unfold Static.copy_every_nth.
  destruct ((StartIdx <? size source) && (StartIdx >=? 0)); [|reflexivity].
  destruct (N >? 0); [|reflexivity].
  destruct (required_size size_bits (size source) StartIdx N
            <=? size destination); reflexivity.
Qed.

Section StaticLoopAlways.

Variable size_bits : positive.
Context {T : Type}.

(** Whatever the stride does to [i], the guarded loop returns: it reads
    inside the source, writes inside the destination and stops at the end
    of the destination at the latest. *)
Lemma static_loop_returns N (source : list T) fuel :
  forall i d (dest : list T),
  0 <= i -> 0 <= d -> size dest < SIZE_MOD size_bits ->
  (Z.to_nat (size dest - d) < fuel)%nat ->
  exists i' d' dest',
    Static.copy_loop size_bits fuel N (size source) (size dest) source i d dest
    = (Returned (i', d'), dest')
    /\ length dest' = length dest
    /\ d <= d'
    /\ (forall n : nat, Z.of_nat n < d \/ d' <= Z.of_nat n ->
          dest' !! n = dest !! n).
Proof.
  induction fuel as [|fuel IH]; intros i d dest Hi Hd Hdest Hfuel; [lia|].
  destruct (Z_lt_le_dec i (size source)) as [Hlt|Hge].
  - destruct (Z_lt_le_dec d (size dest)) as [Hin|Hout].
    + destruct (read_Some source i ltac:(lia)) as [x Hx].
      rewrite (static_loop_step size_bits fuel N (size dest) source i d dest x
                 Hi Hx) by lia.
      rewrite (size_add_no_wrap size_bits d 1) by lia.
      destruct (IH (size_add size_bits i N) (d + 1) (<[Z.to_nat d := x]> dest))
        as (i' & d' & dest' & Hrun & Hlen & Hle & Hkept);
        try rewrite size_length_insert; try lia.
      { apply wrap_nonneg. }
      rewrite size_length_insert in Hrun.
      exists i', d', dest'. split; [exact Hrun|].
      split; [now rewrite Hlen, length_insert|]. split; [lia|].
      intros n Hn. rewrite Hkept by lia.
      apply list_lookup_insert_ne. lia.
    + rewrite static_loop_exit by (right; lia).
      exists i, d, dest. repeat split; first [reflexivity | lia].
  - rewrite static_loop_exit by (left; lia).
    exists i, d, dest. repeat split; first [reflexivity | lia].
Qed.

Lemma static_loop_not_IllFormed N SE DE (source : list T) fuel :
  forall i d (dest : list T) msg,
  (Static.copy_loop size_bits fuel N SE DE source i d dest).1 <> IllFormed msg.
Proof.
  induction fuel as [|fuel IH]; intros i d dest msg; [discriminate|].
  simpl. destruct ((i <? SE) && (d <? DE)); [|discriminate].
  unfold mbind at 1, M_bind at 1, read.
  destruct ((0 <=? i) && (i <? size source)); [|discriminate].
  destruct (source !! Z.to_nat i) as [x|]; [|discriminate].
  unfold mbind at 1, M_bind at 1, write.
  destruct ((0 <=? d) && (d <? size dest)); [|discriminate].
  apply IH.
Qed.

End StaticLoopAlways.

(** X1. For every stride and start index, wrap-around included, a call of
    the static-extent copy that passes its [static_assert]s returns: it has
    no access outside a span and its loop ends. The destination keeps its
    length. *)
Theorem static_copy_never_overruns
    (size_bits : positive) {T : Type}
    (N StartIdx : Z) (source destination : list T) :
  size destination < SIZE_MOD size_bits ->
  (exists msg,
     Static.copy_every_nth size_bits N StartIdx source destination
     = (IllFormed msg, destination))
  \/ (exists destination',
        Static.copy_every_nth size_bits N StartIdx source destination
        = (Returned tt, destination')
        /\ length destination' = length destination).
Proof.
  intros Hdest. rewrite static_copy_cases.
  destruct ((StartIdx <? size source) && (StartIdx >=? 0)) eqn:Hstart;
    [|left; eauto].
  destruct (N >? 0); [|left; eauto].
  destruct (required_size size_bits (size source) StartIdx N
            <=? size destination); [|left; eauto].
  right. apply andb_true_iff in Hstart as [_ Hge].
  rewrite Z.geb_leb in Hge. apply Z.leb_le in Hge.
  destruct (static_loop_returns size_bits N source (S (length destination))
              StartIdx 0 destination Hge ltac:(lia) Hdest)
    as (i' & d' & dest' & Hrun & Hlen & _); [unfold size; lia|].
  exists dest'. unfold mbind, M_bind. rewrite Hrun. split; [reflexivity|exact Hlen].
Qed.

Lemma static_copy_never_overruns_witness :
  (exists msg,
     Static.copy_every_nth bits64 (SIZE_MAX bits64) 3 [1; 2; 3; 4] [0]
     = (IllFormed msg, [0]))
  \/ (exists destination',
        Static.copy_every_nth bits64 (SIZE_MAX bits64) 3 [1; 2; 3; 4] [0]
        = (Returned tt, destination')
        /\ length destination' = 1%nat).
Proof.
  apply (static_copy_never_overruns bits64 (SIZE_MAX bits64) 3 [1; 2; 3; 4] [0]).
  vm_compute. reflexivity.
Defined.

(** X2. The compile-time and the run-time validation are the same test but
    for one start index: for a positive stride the static-extent copy is
    rejected by a [static_assert] exactly when the dynamic-extent copy, on
    the same arguments, signals through [THROW_OR_PANIC] or the start index
    equals the length of the source. *)
Theorem static_rejects_iff_dynamic_signals
    (size_bits : positive) (b : build_config) {T : Type}
    (N StartIdx : Z) (source destination : list T) :
  0 < N ->
  (exists msg,
     (Static.copy_every_nth size_bits N StartIdx source destination).1
     = IllFormed msg)
  <-> (exists f,
         (Dynamic.copy_every_nth size_bits b N StartIdx source destination).1
         = Signaled f)
      \/ StartIdx = size source.
Proof.
  intros HN. rewrite static_copy_cases, dynamic_copy_cases.
  assert (H1 : (N >? 0) = true) by (apply Z.gtb_lt; lia).
  rewrite H1.
  destruct (THROW_OR_PANIC_Signaled (St := list T) b "Invalid start index"
              destination) as [f1 Hf1].
  destruct (THROW_OR_PANIC_Signaled (St := list T) b
              "Destination container does not have sufficient size, "
              destination) as [f2 Hf2].
  rewrite Hf1, Hf2.
  rewrite (Z.gtb_ltb StartIdx), (Z.gtb_ltb (required_size _ _ _ _)), Z.geb_leb.
  pose proof (size_nonneg source) as Hsz.
  assert (Hrejected : forall msg : string,
    (exists m, (IllFormed (A := unit) msg, destination).1 = IllFormed m)) by eauto.
  destruct (Z.ltb_spec StartIdx (size source));
    destruct (Z.ltb_spec (size source) StartIdx);
    destruct (Z.leb_spec 0 StartIdx);
    destruct (Z.ltb_spec StartIdx 0); try lia; cbn [orb andb];
    try (split; [intros _; first [right; lia | left; eexists; reflexivity]
                |intros _; apply Hrejected]).
  destruct (Z.leb_spec (required_size size_bits (size source) StartIdx N)
              (size destination));
    destruct (Z.ltb_spec (size destination)
                (required_size size_bits (size source) StartIdx N));
    try lia; cbn [orb andb];
    try (split; [intros _; left; eexists; reflexivity
                |intros _; apply Hrejected]).
  split.
  - intros [msg Hmsg]. exfalso.
    apply (static_loop_not_IllFormed size_bits N (size source)
             (size destination) source (S (length destination))
             StartIdx 0 destination msg).
    unfold mbind, M_bind, mret, M_ret in Hmsg.
    destruct (Static.copy_loop size_bits (S (length destination)) N
                (size source) (size destination) source StartIdx 0
                destination) as [[ | | | | ] d']; simpl in *; congruence.
  - intros [[f Hf]|Heq]; [|lia]. exfalso.
    apply (dynamic_loop_not_Signaled size_bits N source
             (S (length destination)) StartIdx 0 destination f).
    unfold mbind, M_bind, mret, M_ret in Hf.
    destruct (Dynamic.copy_loop size_bits (S (length destination)) N
                source StartIdx 0 destination) as [[ | | | | ] d'];
      simpl in *; congruence.
Qed.

Lemma static_rejects_iff_dynamic_signals_witness :
  (exists msg,
     (Static.copy_every_nth bits64 2 0 [10; 20; 30; 40; 50] [0; 0]).1
     = IllFormed msg)
  <-> (exists f,
         (Dynamic.copy_every_nth bits64 with_exceptions 2 0
            [10; 20; 30; 40; 50] [0; 0]).1 = Signaled f)
      \/ 0 = size [10; 20; 30; 40; 50].
Proof.
  apply (static_rejects_iff_dynamic_signals bits64 with_exceptions 2 0
           [10; 20; 30; 40; 50] [0; 0]).
  lia.
Defined.

(** ** What a failed dynamic-extent copy tells its caller *)

(** X3. In a build with exceptions the [runtime_error] of a failed
    dynamic-extent copy names the validation that failed, and the start
    index is validated first; in a build without, every failure is the same
    process abort. *)
Theorem copy_failure_by_build
    (size_bits : positive) (b : build_config) {T : Type}
    (N StartIdx : Z) (source destination : list T) (f : failure) :
  (Dynamic.copy_every_nth size_bits b N StartIdx source destination).1
    = Signaled f ->
  (EXCEPTIONS_ENABLED b = true ->
     (f = runtime_error "Invalid start index"
      /\ (size source < StartIdx \/ StartIdx < 0))
     \/ (f = runtime_error
               "Destination container does not have sufficient size, "
         /\ 0 <= StartIdx <= size source
         /\ size destination
            < required_size size_bits (size source) StartIdx N))
  /\ (EXCEPTIONS_ENABLED b = false -> f = process_abort).
Proof.
  rewrite dynamic_copy_cases. unfold THROW_OR_PANIC.
  destruct (N >? 0); [|discriminate].
  rewrite (Z.gtb_ltb StartIdx), (Z.gtb_ltb (required_size _ _ _ _)).
  destruct (Z.ltb_spec (size source) StartIdx) as [Hgt|Hle];
    destruct (Z.ltb_spec StartIdx 0) as [Hneg|Hnonneg]; cbn [orb];
    try (destruct (EXCEPTIONS_ENABLED b); intros [= <-];
         split; intros; try discriminate; try reflexivity; left;
         split; [reflexivity|lia]).
  destruct (Z.ltb_spec (size destination)
              (required_size size_bits (size source) StartIdx N))
    as [Hshort|Hfits].
  - destruct (EXCEPTIONS_ENABLED b); intros [= <-];
      split; intros; try discriminate; try reflexivity.
    right. split; [reflexivity|lia].
  - intros Hf. exfalso.
    apply (dynamic_loop_not_Signaled size_bits N source
             (S (length destination)) StartIdx 0 destination f).
    unfold mbind, M_bind, mret, M_ret in Hf.
    destruct (Dynamic.copy_loop size_bits (S (length destination)) N
                source StartIdx 0 destination) as [[ | | | | ] d'];
      simpl in *; congruence.
Qed.

Lemma copy_failure_by_build_witness :
  let source := [10; 20; 30; 40; 50] in
  let destination := [0; 0] in
  let f := runtime_error
             "Destination container does not have sufficient size, " in
  (f = runtime_error "Invalid start index"
   /\ (size source < 0 \/ 0 < 0))
  \/ (f = f /\ 0 <= 0 <= size source
      /\ size destination < required_size bits64 (size source) 0 2).
Proof.
  apply (copy_failure_by_build bits64 with_exceptions 2 0
           [10; 20; 30; 40; 50] [0; 0]
           (runtime_error
              "Destination container does not have sufficient size, "));
    vm_compute; reflexivity.
Defined.

(** ** What the copies write when no index wraps around *)

(** X4. Where [size + N] stays within [std::size_t] and the destination
    can hold them, the dynamic-extent copy returns having written
    [ceil((size - StartIdx) / N)] elements: slot [j] holds the source
    element at [StartIdx + j * N], and the destination behind them is as
    it was. *)
Theorem dynamic_copy_selects_every_nth
    (size_bits : positive) (b : build_config) {T : Type}
    (N StartIdx : Z) (source destination : list T) :
  0 < N ->
  0 <= StartIdx <= size source ->
  size source + N <= SIZE_MOD size_bits ->
  size destination < SIZE_MOD size_bits ->
  ceil_div (size source - StartIdx) N <= size destination ->
  exists destination',
    Dynamic.copy_every_nth size_bits b N StartIdx source destination
    = (Returned tt, destination')
    /\ length destination' = length destination
    /\ (forall j, 0 <= j < ceil_div (size source - StartIdx) N ->
          exists x, source !! Z.to_nat (StartIdx + j * N) = Some x
                    /\ destination' !! Z.to_nat j = Some x)
    /\ (forall n : nat, ceil_div (size source - StartIdx) N <= Z.of_nat n ->
          destination' !! n = destination !! n).
Proof.
  intros HN Hstart Hwrap Hdest Hcap.
  exact (dynamic_copy_no_wrap size_bits b N StartIdx source destination
           HN Hwrap Hstart Hdest Hcap).
Qed.

Lemma dynamic_copy_selects_every_nth_witness :
  exists destination',
    Dynamic.copy_every_nth bits64 with_exceptions 2 1 [10; 20; 30; 40; 50]
      [0; 0; 7]
    = (Returned tt, destination')
    /\ length destination' = 3%nat
    /\ destination' !! 1%nat = Some 40
    /\ destination' !! 2%nat = Some 7.
Proof.
  destruct (dynamic_copy_selects_every_nth bits64 with_exceptions 2 1
              [10; 20; 30; 40; 50] [0; 0; 7])
    as (d' & Hrun & Hlen & Hcopied & Hkept);
    try (vm_compute; try split; congruence).
  exists d'. split; [exact Hrun|]. split; [exact Hlen|]. split.
  - destruct (Hcopied 1) as (x & Hx & Hd); [vm_compute; split; congruence|].
    vm_compute in Hx. injection Hx as <-. exact Hd.
  - rewrite (Hkept 2%nat); [reflexivity|vm_compute; congruence].
Defined.

(** X5. Under the same bound on [size + N], a static-extent copy that
    passes its [static_assert]s writes the same selection, and its result
    is that of the dynamic-extent copy on the same arguments. *)
Theorem static_copy_selects_every_nth
    (size_bits : positive) (b : build_config) {T : Type}
    (N StartIdx : Z) (source destination : list T) :
  0 < N ->
  0 <= StartIdx < size source ->
  size source + N <= SIZE_MOD size_bits ->
  size destination < SIZE_MOD size_bits ->
  ceil_div (size source - StartIdx) N <= size destination ->
  (exists destination',
     Static.copy_every_nth size_bits N StartIdx source destination
     = (Returned tt, destination')
     /\ length destination' = length destination
     /\ (forall j, 0 <= j < ceil_div (size source - StartIdx) N ->
           exists x, source !! Z.to_nat (StartIdx + j * N) = Some x
                     /\ destination' !! Z.to_nat j = Some x)
     /\ (forall n : nat, ceil_div (size source - StartIdx) N <= Z.of_nat n ->
           destination' !! n = destination !! n))
  /\ Static.copy_every_nth size_bits N StartIdx source destination
     = Dynamic.copy_every_nth size_bits b N StartIdx source destination.
Proof.
  intros HN Hstart Hwrap Hdest Hcap.
  destruct (static_copy_no_wrap size_bits b N StartIdx source destination
              HN Hwrap ltac:(lia) Hdest ltac:(lia) Hcap) as (H1 & H2 & _).
  split; assumption.
Qed.

Lemma static_copy_selects_every_nth_witness :
  Static.copy_every_nth bits64 3 1 [1; 2; 3; 4] [0]
  = Dynamic.copy_every_nth bits64 no_exceptions 3 1 [1; 2; 3; 4] [0].
Proof.
  apply (static_copy_selects_every_nth bits64 no_exceptions 3 1
           [1; 2; 3; 4] [0]);
    vm_compute; try split; congruence.
Defined.

(** X6. Under the same bound on [size + N] and with a start index inside
    the source or at its end, the dynamic-extent copy signals the capacity
    failure exactly when the destination is shorter than
    [ceil((size - StartIdx) / N)]; otherwise it returns. *)
Theorem capacity_signaled_iff_too_short
    (size_bits : positive) (b : build_config) {T : Type}
    (N StartIdx : Z) (source destination : list T) :
  0 < N ->
  0 <= StartIdx <= size source ->
  size source + N <= SIZE_MOD size_bits ->
  size destination < SIZE_MOD size_bits ->
  (signaled_by b "Destination container does not have sufficient size, "
     destination
     (Dynamic.copy_every_nth size_bits b N StartIdx source destination)
   <-> size destination < ceil_div (size source - StartIdx) N)
  /\ (ceil_div (size source - StartIdx) N <= size destination ->
      exists destination',
        Dynamic.copy_every_nth size_bits b N StartIdx source destination
        = (Returned tt, destination')).
Proof.
  intros HN Hstart Hwrap Hdest. split.
  - exact (dynamic_capacity_no_wrap size_bits b N StartIdx source destination
             HN Hwrap Hstart).
  - intros Hcap.
    destruct (dynamic_copy_no_wrap size_bits b N StartIdx source destination
                HN Hwrap Hstart Hdest Hcap) as (d' & Hrun & _).
    exists d'. exact Hrun.
Qed.

Lemma capacity_signaled_iff_too_short_witness :
  signaled_by with_exceptions
    "Destination container does not have sufficient size, " [0; 0]
    (Dynamic.copy_every_nth bits64 with_exceptions 2 0 [10; 20; 30; 40; 50]
       [0; 0]).
Proof.
  apply (capacity_signaled_iff_too_short bits64 with_exceptions 2 0
           [10; 20; 30; 40; 50] [0; 0]);
    vm_compute; try split; congruence.
Defined.

(** ** Specialising and composing strides *)

Lemma ceil_div_1 a : ceil_div a 1 = a.
Proof. unfold ceil_div. rewrite Z.div_1_r. ring. Qed.

Lemma ceil_div_nonneg a b : 0 < b -> 0 <= a -> 0 <= ceil_div a b.
Proof. intros Hb Ha. pose proof (ceil_div_spec a b Hb). nia. Qed.

Lemma ceil_div_le_self a b : 0 < b -> 0 <= a -> ceil_div a b <= a.
Proof.
  intros Hb Ha. pose proof (ceil_div_spec a b Hb).
  destruct (Z.eq_dec a 0) as [->|Hne]; nia.
Qed.

(** The ceiling of a ceiling is the ceiling by the product. *)
Lemma ceil_div_ceil_div a b c :
  0 < b -> 0 < c -> ceil_div (ceil_div a b) c = ceil_div a (b * c).
Proof.
  intros Hb Hc.
  pose proof (ceil_div_spec a b Hb) as H1.
  pose proof (ceil_div_spec (ceil_div a b) c Hc) as H2.
  pose proof (ceil_div_spec a (b * c) ltac:(nia)) as H3.
  set (p := ceil_div a b) in *.
  set (q := ceil_div p c) in *.
  set (r := ceil_div a (b * c)) in *.
  assert (Hqr : q - 1 < r).
  { assert ((q - 1) * c <= p - 1) by lia.
    assert ((q - 1) * c * b <= (p - 1) * b) by nia.
    assert ((q - 1) * (b * c) < r * (b * c)) by nia.
    nia. }
  assert (Hrq : r - 1 < q).
  { assert (p * b <= q * c * b) by nia.
    assert ((r - 1) * (b * c) < q * (b * c)) by nia.
    nia. }
  lia.
Qed.

(** X7. With stride 1 from start index 0 the dynamic-extent copy is a
    plain copy: the destination begins with the whole source and goes on as
    it was. *)
Theorem copy_every_1st_is_plain_copy
    (size_bits : positive) (b : build_config) {T : Type}
    (source destination : list T) :
  size source < SIZE_MOD size_bits ->
  size destination < SIZE_MOD size_bits ->
  (length source <= length destination)%nat ->
  Dynamic.copy_every_nth size_bits b 1 0 source destination
  = (Returned tt, (source ++ drop (length source) destination)%list).
Proof.
  intros Hsrc Hdest Hlen.
  pose proof (size_nonneg source) as Hnn.
  destruct (dynamic_copy_no_wrap size_bits b 1 0 source destination
              ltac:(lia) ltac:(lia) ltac:(lia) Hdest)
    as (d' & Hrun & Hlen' & Hcopied & Hkept).
  { rewrite Z.sub_0_r, ceil_div_1. unfold size. lia. }
  rewrite Hrun. f_equal.
  rewrite Z.sub_0_r, ceil_div_1 in Hcopied, Hkept.
  apply list_eq. intros n.
  destruct (Nat.lt_ge_cases n (length source)) as [Hin|Hout].
  - rewrite lookup_app_l by exact Hin.
    destruct (Hcopied (Z.of_nat n)) as (x & Hx & Hd); [unfold size; lia|].
    rewrite Nat2Z.id in Hd.
    replace (Z.to_nat (0 + Z.of_nat n * 1)) with n in Hx by lia.
    congruence.
  - rewrite lookup_app_r by exact Hout.
    rewrite lookup_drop.
    replace (length source + (n - length source))%nat with n by lia.
    apply Hkept. unfold size. lia.
Qed.

Lemma copy_every_1st_is_plain_copy_witness :
  Dynamic.copy_every_nth bits64 with_exceptions 1 0 [1; 2; 3] [7; 8; 9; 10]
  = (Returned tt, [1; 2; 3; 10]).
Proof.
  apply (copy_every_1st_is_plain_copy bits64 with_exceptions
           [1; 2; 3] [7; 8; 9; 10]).
  - vm_compute. reflexivity.
  - vm_compute. reflexivity.
  - simpl. lia.
Defined.

(** X8. Strides multiply. Taking every [N]-th element into a buffer of
    exactly [ceil(size / N)] slots and then every [M]-th element of that
    buffer leaves the destination as taking every [N * M]-th element of the
    source does, where [size + N * M] stays within [std::size_t]. *)
Theorem strides_compose
    (size_bits : positive) (b : build_config) {T : Type}
    (N M : Z) (source mid destination : list T) :
  0 < N -> 0 < M ->
  size source + N * M <= SIZE_MOD size_bits ->
  size mid = ceil_div (size source) N ->
  size destination < SIZE_MOD size_bits ->
  ceil_div (size source) (N * M) <= size destination ->
  exists mid',
    Dynamic.copy_every_nth size_bits b N 0 source mid = (Returned tt, mid')
    /\ Dynamic.copy_every_nth size_bits b M 0 mid' destination
       = Dynamic.copy_every_nth size_bits b (N * M) 0 source destination.
Proof.
  intros HN HM Hwrap Hmid Hdest Hcap.
  pose proof (size_nonneg source) as Hnn.
  pose proof (ceil_div_le_self (size source) N HN Hnn) as Hk1.
  pose proof (ceil_div_nonneg (size source) N HN Hnn) as Hk1'.
  pose proof (ceil_div_ceil_div (size source) N M HN HM) as Hkk.
  assert (HNM : N <= N * M /\ M <= N * M) by nia.
  destruct (dynamic_copy_no_wrap size_bits b N 0 source mid HN
              ltac:(lia) ltac:(lia) ltac:(lia))
    as (d1 & Hrun1 & Hlen1 & Hcop1 & _).
  { rewrite Z.sub_0_r. lia. }
  rewrite Z.sub_0_r in Hcop1.
  assert (Hsz1 : size d1 = ceil_div (size source) N).
  { unfold size in *. rewrite Hlen1. exact Hmid. }
  exists d1. split; [exact Hrun1|].
  destruct (dynamic_copy_no_wrap size_bits b M 0 d1 destination HM
              ltac:(lia) ltac:(lia) Hdest)
    as (d2 & Hrun2 & Hlen2 & Hcop2 & Hkept2).
  { rewrite Z.sub_0_r, Hsz1, Hkk. exact Hcap. }
  destruct (dynamic_copy_no_wrap size_bits b (N * M) 0 source destination
              ltac:(nia) ltac:(lia) ltac:(lia) Hdest)
    as (d3 & Hrun3 & Hlen3 & Hcop3 & Hkept3).
  { rewrite Z.sub_0_r. exact Hcap. }
  rewrite Z.sub_0_r, Hsz1, Hkk in Hcop2, Hkept2.
  rewrite Z.sub_0_r in Hcop3, Hkept3.
  rewrite Hrun2, Hrun3. f_equal.
  apply list_eq. intros n.
  destruct (Z_lt_le_dec (Z.of_nat n) (ceil_div (size source) (N * M)))
    as [Hin|Hout].
  - destruct (Hcop2 (Z.of_nat n) ltac:(lia)) as (x & Hx & Hd2).
    destruct (Hcop3 (Z.of_nat n) ltac:(lia)) as (z & Hz & Hd3).
    assert (Hsel : 0 <= Z.of_nat n * M < ceil_div (size source) N).
    { pose proof (ceil_div_spec (ceil_div (size source) N) M HM) as Hs.
      rewrite Hkk in Hs. nia. }
    destruct (Hcop1 (Z.of_nat n * M) Hsel) as (y & Hy & Hd1).
    rewrite Z.add_0_l in Hx, Hy, Hz.
    replace (Z.of_nat n * M * N) with (Z.of_nat n * (N * M)) in Hy by ring.
    rewrite Nat2Z.id in Hd2, Hd3. congruence.
  - rewrite (Hkept2 n Hout), (Hkept3 n Hout). reflexivity.
Qed.

Lemma strides_compose_witness :
  exists mid',
    Dynamic.copy_every_nth bits64 with_exceptions 2 0 [1; 2; 3; 4; 5]
      [0; 0; 0]
    = (Returned tt, mid')
    /\ Dynamic.copy_every_nth bits64 with_exceptions 2 0 mid' [0; 0]
       = Dynamic.copy_every_nth bits64 with_exceptions (2 * 2) 0
           [1; 2; 3; 4; 5] [0; 0].
Proof.
  apply (strides_compose bits64 with_exceptions 2 2 [1; 2; 3; 4; 5]
           [0; 0; 0] [0; 0]);
    vm_compute; congruence.
Defined.

(** ** The two overloads side by side *)

Section LoopsAgree.

Variable size_bits : positive.
Context {T : Type}.

(** A run of the unguarded loop that returns never had [destIndex] at the
    end of the destination, so the guarded loop runs the same. *)
Lemma dynamic_loop_returns_static N (source : list T) fuel :
  forall i d (dest : list T) r dest',
  Dynamic.copy_loop size_bits fuel N source i d dest = (Returned r, dest') ->
  Static.copy_loop size_bits fuel N (size source) (size dest) source i d dest
  = (Returned r, dest').
Proof.
  induction fuel as [|fuel IH]; intros i d dest r dest' Hrun;
    [discriminate Hrun|].
  destruct (Z_lt_le_dec i (size source)) as [Hlt|Hge].
  - destruct (Z_lt_le_dec 0 (i + 1)) as [Hi|Hi].
    + destruct (read_Some source i ltac:(lia)) as [x Hx].
      destruct (Z_lt_le_dec d (size dest)) as [Hin|Hout].
      * destruct (Z_lt_le_dec 0 (d + 1)) as [Hd|Hd].
        -- rewrite (dynamic_loop_step size_bits fuel N source i d dest x)
             in Hrun by (try assumption; lia).
           rewrite (static_loop_step size_bits fuel N (size dest) source i d
                      dest x) by (try assumption; lia).
           apply IH in Hrun. rewrite size_length_insert in Hrun. exact Hrun.
        -- simpl in Hrun.
           assert (Hc : (i <? size source) = true) by (apply Z.ltb_lt; lia).
           rewrite Hc in Hrun. unfold mbind at 1, M_bind at 1 in Hrun.
           rewrite (read_in_range source i x dest ltac:(lia) Hx) in Hrun.
           unfold mbind at 1, M_bind at 1, write in Hrun.
           assert (Hw : (0 <=? d) = false) by (apply Z.leb_gt; lia).
           rewrite Hw in Hrun. discriminate Hrun.
      * rewrite dynamic_loop_overrun in Hrun by lia. discriminate Hrun.
    + simpl in Hrun.
      assert (Hc : (i <? size source) = true) by (apply Z.ltb_lt; lia).
      rewrite Hc in Hrun. unfold mbind at 1, M_bind at 1, read in Hrun.
      assert (Hr : (0 <=? i) = false) by (apply Z.leb_gt; lia).
      rewrite Hr in Hrun. discriminate Hrun.
  - rewrite dynamic_loop_exit in Hrun by lia.
    rewrite static_loop_exit by (left; lia). exact Hrun.
Qed.

End LoopsAgree.

(** X9. For every stride, wrap-around included: when the dynamic-extent
    copy returns and the start index is not the length of the source, the
    static-extent copy on the same arguments passes its [static_assert]s
    and leaves the same destination. *)
Theorem dynamic_return_is_static_return
    (size_bits : positive) (b : build_config) {T : Type}
    (N StartIdx : Z) (source destination destination' : list T) :
  Dynamic.copy_every_nth size_bits b N StartIdx source destination
    = (Returned tt, destination') ->
  StartIdx <> size source ->
  Static.copy_every_nth size_bits N StartIdx source destination
  = (Returned tt, destination').
Proof.
  rewrite dynamic_copy_cases, static_copy_cases. unfold THROW_OR_PANIC.
  destruct (N >? 0); [|discriminate].
  rewrite (Z.gtb_ltb StartIdx), (Z.gtb_ltb (required_size _ _ _ _)), Z.geb_leb.
  destruct (Z.ltb_spec (size source) StartIdx);
    destruct (Z.ltb_spec StartIdx 0); cbn [orb];
    try (destruct (EXCEPTIONS_ENABLED b); discriminate).
  destruct (Z.ltb_spec (size destination)
              (required_size size_bits (size source) StartIdx N));
    [destruct (EXCEPTIONS_ENABLED b); discriminate|].
  intros Hrun Hne.
  destruct (Z.ltb_spec StartIdx (size source)); [|lia].
  destruct (Z.leb_spec 0 StartIdx); [|lia].
  destruct (Z.leb_spec (required_size size_bits (size source) StartIdx N)
              (size destination)); [|lia].
  cbn [andb]. unfold mbind, M_bind, mret, M_ret in *.
  destruct (Dynamic.copy_loop size_bits (S (length destination)) N source
              StartIdx 0 destination) as [[r| | | | ] d1] eqn:Hloop;
    try discriminate Hrun.
  rewrite (dynamic_loop_returns_static size_bits N source _ _ _ _ _ _ Hloop).
  exact Hrun.
Qed.

Lemma dynamic_return_is_static_return_witness :
  Static.copy_every_nth bits64 (SIZE_MAX bits64) 3 [1; 2; 3; 4] [0; 0; 0; 0]
  = (Returned tt, [4; 3; 2; 1]).
Proof.
  apply (dynamic_return_is_static_return bits64 with_exceptions
           (SIZE_MAX bits64) 3 [1; 2; 3; 4] [0; 0; 0; 0] [4; 3; 2; 1]).
  - vm_compute. reflexivity.
  - vm_compute. congruence.
Defined.

(** X10. The two overloads of [mean] draw the same line: the static-extent
    one is rejected by its [static_assert] exactly when the dynamic-extent
    one signals, which is on the empty source; on any other source neither
    fails and they return the same value. *)
Theorem mean_static_rejects_iff_dynamic_signals
    {T St} (b : build_config) (plus : float -> T -> float)
    (source : list T) (s : St) :
  ((exists msg, (Static.mean plus source s).1 = IllFormed msg)
   <-> source = [])
  /\ ((exists msg, (Static.mean plus source s).1 = IllFormed msg)
      <-> (exists f, (Dynamic.mean b plus source s).1 = Signaled f))
  /\ ((exists v, Static.mean plus source s = (Returned v, s))
      \/ (exists msg, Static.mean plus source s = (IllFormed msg, s)))
  /\ (forall v, Static.mean plus source s = (Returned v, s)
                <-> Dynamic.mean b plus source s = (Returned v, s)).
Proof.
  destruct (THROW_OR_PANIC_Signaled (St := St) b
              "Source container must be non-empty" s) as [f Hf].
  unfold Static.mean, Dynamic.mean, mbind, M_bind, when, static_assert.
  destruct source as [|x l].
  - change (empty (@nil T)) with true. change (size (@nil T)) with 0.
    cbv beta iota. rewrite Hf. cbn.
    split; [split; eauto|]. split; [split; eauto|].
    split; [right; eauto|]. intros v. split; discriminate.
  - assert (Hem : empty (x :: l) = false).
    { destruct (empty (x :: l)) eqn:E; [|done]. apply empty_nil in E. done. }
    assert (Hsz : (size (x :: l) >? 0) = true).
    { unfold size. simpl length. apply Z.gtb_lt. lia. }
    rewrite Hem, Hsz. unfold mret, M_ret. cbn [fst].
    split; [split; [intros [? ?]|]; discriminate|].
    split; [split; intros [? ?]; discriminate|].
    split; [left; eauto|]. intros v. reflexivity.
Qed.
